(** * The headers middleware of traefik (middlewares/headers.go)

    A shallow embedding of [HeaderStruct] and its methods, together with the
    part of Go's [net/http] and [net/textproto] that the middleware calls:
    header sets keyed by canonical MIME header names, [strings.Join],
    [strconv.Itoa] and the iteration of a [range] loop over a Go map. *)

From Stdlib Require Import ZArith Ascii String Lia.
From stdpp Require Import base decidable option list strings pretty gmap fin_maps.

Local Open Scope string_scope.
Local Open Scope Z_scope.

(** ** Go library: net/textproto and net/http headers *)

Module textproto.

Definition byteOf (c : ascii) : N := N_of_ascii c.

Definition isUpperLetter (c : ascii) : bool :=
  ((65 <=? byteOf c) && (byteOf c <=? 90))%N.

Definition isLowerLetter (c : ascii) : bool :=
  ((97 <=? byteOf c) && (byteOf c <=? 122))%N.

Definition isDigit (c : ascii) : bool :=
  ((48 <=? byteOf c) && (byteOf c <=? 57))%N.

(** The bytes that may occur in a header field name (RFC 7230 token). *)
Definition isTokenPunct (c : ascii) : bool :=
  existsb (Ascii.eqb c)
    ["!"; "#"; "$"; "%"; "&"; "'"; "*"; "+"; "-"; "."; "^"; "_"; "`"; "|"; "~"]%char.

Definition validHeaderFieldByte (c : ascii) : bool :=
  isUpperLetter c || isLowerLetter c || isDigit c || isTokenPunct c.

Fixpoint allValid (a : string) : bool :=
  match a with
  | EmptyString => true
  | String c a' => validHeaderFieldByte c && allValid a'
  end.

(** [toLower] is ['a' - 'A']. *)
Definition toLower : N := 32.

Definition canonicalByte (upper : bool) (c : ascii) : ascii :=
  if upper && isLowerLetter c then ascii_of_N (byteOf c - toLower)
  else if negb upper && isUpperLetter c then ascii_of_N (byteOf c + toLower)
  else c.

(** The second loop of [canonicalMIMEHeaderKey]: upper case for the first
    letter and for each letter after a dash, lower case elsewhere. *)
Fixpoint canonicalize (upper : bool) (a : string) : string :=
  match a with
  | EmptyString => EmptyString
  | String c a' =>
      let c' := canonicalByte upper c in
      String c' (canonicalize (Ascii.eqb c' "-") a')
  end.

(** A key that holds a byte outside the token alphabet is returned as
    it is. *)
Definition CanonicalMIMEHeaderKey (s : string) : string :=
  if allValid s then canonicalize true s else s.

End textproto.

Module http.

Definition MethodOptions : string := "OPTIONS".

(** [http.Header] is [map[string][]string]. *)
Abbreviation Header := (gmap string (list string)).

Definition Get (h : Header) (key : string) : string :=
  match h !! textproto.CanonicalMIMEHeaderKey key with
  | Some (v :: _) => v
  | _ => ""
  end.

Definition Set_ (h : Header) (key value : string) : Header :=
  <[textproto.CanonicalMIMEHeaderKey key := [value]]> h.

Definition Add (h : Header) (key value : string) : Header :=
  let k := textproto.CanonicalMIMEHeaderKey key in
  <[k := (default [] (h !! k) ++ [value])%list]> h.

Definition Del (h : Header) (key : string) : Header :=
  delete (textproto.CanonicalMIMEHeaderKey key) h.

(** The fields of [http.Request] that the middleware reads or writes. *)
Record Request : Type := mkRequest {
  Method : string;
  ReqHeader : Header
}.

(** The fields of [http.Response] that the middleware writes. *)
Record Response : Type := mkResponse {
  ResHeader : Header
}.

(** A handler receives the response writer's header set and the request,
    both by reference, and may change either. *)
Definition HandlerFunc : Type := Header -> Request -> Header * Request.

End http.

(** ** Go library: strings and strconv *)

Module strings.

Fixpoint Join (a : list string) (sep : string) : string :=
  match a with
  | [] => ""
  | [x] => x
  | x :: rest => x ++ sep ++ Join rest sep
  end.

End strings.

Module strconv.

(** [int] is 64 bits wide on the platforms the binary is built for. *)
Definition intSize : Z := 64.

(** The conversion [int(x)] of an [int64]: the value modulo [2^intSize],
    read as a signed number. *)
Definition int_of_int64 (x : Z) : Z :=
  (x + 2 ^ (intSize - 1)) mod 2 ^ intSize - 2 ^ (intSize - 1).

(** [Itoa] gives the decimal representation. *)
Definition Itoa (i : Z) : string := pretty i.

End strconv.

(** ** Go runtime: [range] over a map

    The order in which a [range] loop visits a map is not specified and
    changes from one loop to the next.  [rangeMap seed m] is the visit that
    takes the keys named by [seed] first, in that order, and then what is
    left of the map: every [seed] gives an order of the entries of [m], and
    every order of the entries is given by some [seed]. *)

Fixpoint rangeMap (seed : list string) (m : gmap string string)
  : list (string * string) :=
  match seed with
  | [] => map_to_list m
  | k :: seed' =>
      match m !! k with
      | Some v => (k, v) :: rangeMap seed' (delete k m)
      | None => rangeMap seed' m
      end
  end.

(** ** Package types: the frontend's header configuration

    The struct that [NewHeaderFromStruct] reads, with the fields it copies. *)

Module types.

Record Headers : Type := mkHeaders {
  CustomRequestHeaders : gmap string string;
  CustomResponseHeaders : gmap string string;
  AccessControlAllowCredentials : bool;
  AccessControlAllowHeaders : list string;
  AccessControlAllowMethods : list string;
  AccessControlAllowOrigin : string;
  AccessControlExposeHeaders : list string;
  AccessControlMaxAge : Z
}.

(** Modelled from the spec: [HasCustomHeadersDefined] is declared in package
    types, outside the files at hand; custom headers are configured when
    one of the two mappings has an entry. *)
Definition HasCustomHeadersDefined (h : Headers) : bool :=
  negb (bool_decide (CustomResponseHeaders h = ∅))
  || negb (bool_decide (CustomRequestHeaders h = ∅)).

(** Modelled from the spec: [HasCorsHeadersDefined] is declared in package
    types, outside the files at hand; CORS headers are configured when one
    of the CORS fields is set. *)
Definition HasCorsHeadersDefined (h : Headers) : bool :=
  AccessControlAllowCredentials h
  || negb (bool_decide (AccessControlAllowHeaders h = []))
  || negb (bool_decide (AccessControlAllowMethods h = []))
  || negb (bool_decide (AccessControlAllowOrigin h = ""))
  || negb (bool_decide (AccessControlExposeHeaders h = []))
  || negb (bool_decide (AccessControlMaxAge h = 0)).

End types.

(** ** Package middlewares: headers.go *)

Record HeaderOptions : Type := mkHeaderOptions {
  CustomRequestHeaders : gmap string string;
  CustomResponseHeaders : gmap string string;
  AccessControlAllowCredentials : bool;
  AccessControlAllowHeaders : list string;
  AccessControlAllowMethods : list string;
  AccessControlAllowOrigin : string;
  AccessControlExposeHeaders : list string;
  (** an [int64] *)
  AccessControlMaxAge : Z
}.

(** The middleware instance.  Every invocation receives a pointer to the
    same instance, so a method that assigns a field returns the instance
    as it leaves it, and the next invocation starts from that. *)
Record HeaderStruct : Type := mkHeaderStruct {
  opt : HeaderOptions;
  originHeader : string
}.

Definition setOriginHeader (s : HeaderStruct) (origin : string) : HeaderStruct :=
  {| opt := opt s; originHeader := origin |}.

(** A Go [error] is its message; [nil] is [None]. *)
Definition error : Type := string.

Section Construction.

(** The two methods of [types.Headers] that construction consults. *)
Variable HasCustomHeadersDefined HasCorsHeadersDefined : types.Headers -> bool.

(** [headers] and the result are pointers: [None] is [nil]. *)
Definition NewHeaderFromStruct (headers : option types.Headers)
  : option HeaderStruct :=
  match headers with
  | None => None
  | Some h =>
      if negb (HasCustomHeadersDefined h) && negb (HasCorsHeadersDefined h)
      then None
      else Some {|
        opt := {|
          CustomRequestHeaders := types.CustomRequestHeaders h;
          CustomResponseHeaders := types.CustomResponseHeaders h;
          AccessControlAllowCredentials := types.AccessControlAllowCredentials h;
          AccessControlAllowHeaders := types.AccessControlAllowHeaders h;
          AccessControlAllowMethods := types.AccessControlAllowMethods h;
          AccessControlAllowOrigin := types.AccessControlAllowOrigin h;
          AccessControlExposeHeaders := types.AccessControlExposeHeaders h;
          AccessControlMaxAge := types.AccessControlMaxAge h
        |};
        originHeader := ""
      |}
  end.

End Construction.

Definition invalidAllowOrigin (setting : string) : error :=
  "invalid Access-Control-Allow-Origin setting: " ++ setting.

Definition getAllowOrigin (s : HeaderStruct) : string * option error :=
  if decide (AccessControlAllowOrigin (opt s) = "origin-list-or-null") then
    if decide (originHeader s = "") then ("null", None)
    else (originHeader s, None)
  else if decide (AccessControlAllowOrigin (opt s) = "*") then ("*", None)
  else ("", Some (invalidAllowOrigin (AccessControlAllowOrigin (opt s)))).

(** The body of the two [range] loops over the custom headers. *)
Definition setOrDel (h : http.Header) (entry : string * string) : http.Header :=
  if decide (entry.2 = "") then http.Del h entry.1
  else http.Set_ h entry.1 entry.2.

(** The loop itself, written out once in [ModifyRequestHeaders] and once in
    [ModifyResponseHeaders]; [seed] fixes the order of the visit. *)
Definition applyHeaders (seed : list string) (target : http.Header)
    (mapping : gmap string string) : http.Header :=
  foldl setOrDel target (rangeMap seed mapping).

Definition ModifyRequestHeaders (seed : list string) (s : HeaderStruct)
    (r : http.Request) : http.Request :=
  {| http.Method := http.Method r;
     http.ReqHeader :=
       applyHeaders seed (http.ReqHeader r) (CustomRequestHeaders (opt s)) |}.

Definition ModifyResponseHeaders (seed : list string) (s : HeaderStruct)
    (res : http.Response) : http.Response * option error :=
  let h := applyHeaders seed (http.ResHeader res) (CustomResponseHeaders (opt s)) in
  match getAllowOrigin s with
  | (_, Some err) => ({| http.ResHeader := h |}, Some err)
  | (allowOrigin, None) =>
      let h :=
        if decide (allowOrigin = "") then h
        else http.Set_ h "Access-Control-Allow-Origin" allowOrigin in
      let h :=
        if AccessControlAllowCredentials (opt s)
        then http.Set_ h "Access-Control-Allow-Credentials" "true"
        else h in
      let exposeHeaders := strings.Join (AccessControlExposeHeaders (opt s)) "," in
      let h :=
        if decide (exposeHeaders = "") then h
        else http.Set_ h "Access-Control-Expose-Headers" exposeHeaders in
      ({| http.ResHeader := h |}, None)
  end.

(** What an invocation of [ServeHTTP] does besides writing headers. *)
Inductive Event : Type :=
| Debugf (msg : string)
| CallNext (w : http.Header) (r : http.Request).

Record Outcome : Type := mkOutcome {
  out_s : HeaderStruct;
  out_w : http.Header;
  out_r : http.Request;
  out_trace : list Event
}.

(** The three reads that open [ServeHTTP]: two go to locals, the third to
    the instance. *)
Definition readRequest (s : HeaderStruct) (r : http.Request)
  : HeaderStruct * string * string :=
  (setOriginHeader s (http.Get (http.ReqHeader r) "Origin"),
   http.Get (http.ReqHeader r) "Access-Control-Request-Method",
   http.Get (http.ReqHeader r) "Access-Control-Request-Headers").

(** The first branch of [ServeHTTP]: the answer to a preflight request. *)
Definition preflight (s : HeaderStruct) (w : http.Header) (r : http.Request)
  : Outcome :=
  let w :=
    if AccessControlAllowCredentials (opt s)
    then http.Add w "Access-Control-Allow-Credentials" "true"
    else w in
  let allowHeaders := strings.Join (AccessControlAllowHeaders (opt s)) "," in
  let w :=
    if decide (allowHeaders = "") then w
    else http.Add w "Access-Control-Allow-Headers" allowHeaders in
  let allowMethods := strings.Join (AccessControlAllowMethods (opt s)) "," in
  let w :=
    if decide (allowMethods = "") then w
    else http.Add w "Access-Control-Allow-Methods" allowMethods in
  let '(allowOrigin, err) := getAllowOrigin s in
  let trace :=
    match err with
    | Some e =>
        [Debugf ("Preflight error with Access-Control-Allow-Origin: " ++ e)]
    | None => []
    end in
  let w :=
    if decide (allowOrigin = "") then w
    else http.Add w "Access-Control-Allow-Origin" allowOrigin in
  let w :=
    http.Add w "Access-Control-Max-Age"
      (strconv.Itoa (strconv.int_of_int64 (AccessControlMaxAge (opt s)))) in
  {| out_s := s; out_w := w; out_r := r; out_trace := trace |}.

(** The second branch of [ServeHTTP]; [next] is [None] for [nil]. *)
Definition forward (seed : list string) (s : HeaderStruct) (w : http.Header)
    (r : http.Request) (next : option http.HandlerFunc) : Outcome :=
  let r := ModifyRequestHeaders seed s r in
  match next with
  | Some f =>
      let '(w', r') := f w r in
      {| out_s := s; out_w := w'; out_r := r'; out_trace := [CallNext w r] |}
  | None => {| out_s := s; out_w := w; out_r := r; out_trace := [] |}
  end.

(** The test that chooses the branch; the origin is read back from the
    instance. *)
Definition isPreflight (s : HeaderStruct) (reqAcMethod reqAcHeaders : string)
    (r : http.Request) : bool :=
  negb (bool_decide (reqAcMethod = ""))
  && negb (bool_decide (reqAcHeaders = ""))
  && negb (bool_decide (originHeader s = ""))
  && bool_decide (http.Method r = http.MethodOptions).

(** [ServeHTTP] from its [if] on. *)
Definition respond (seed : list string) (s : HeaderStruct)
    (reqAcMethod reqAcHeaders : string) (w : http.Header) (r : http.Request)
    (next : option http.HandlerFunc) : Outcome :=
  if isPreflight s reqAcMethod reqAcHeaders r then preflight s w r
  else forward seed s w r next.

Definition ServeHTTP (seed : list string) (s : HeaderStruct) (w : http.Header)
    (r : http.Request) (next : option http.HandlerFunc) : Outcome :=
  let '(s, reqAcMethod, reqAcHeaders) := readRequest s r in
  respond seed s reqAcMethod reqAcHeaders w r next.

(** ** Vocabulary of the statements *)

Abbreviation canon := textproto.CanonicalMIMEHeaderKey.

(** The four conditions of a preflight request, on the request as it
    arrives. *)
Definition preflightRequest (r : http.Request) : Prop :=
  http.Method r = "OPTIONS"
  ∧ http.Get (http.ReqHeader r) "Access-Control-Request-Method" ≠ ""
  ∧ http.Get (http.ReqHeader r) "Access-Control-Request-Headers" ≠ ""
  ∧ http.Get (http.ReqHeader r) "Origin" ≠ "".

(** The values found under a header name once a configured [value] has been
    written there: none after a deletion, the one value after a set. *)
Definition written (value : string) : option (list string) :=
  if decide (value = "") then None else Some [value].

(** The last write a visit [l] makes under the canonical name [key], if it
    makes one. *)
Fixpoint lastWrite (key : string) (l : list (string * string))
  : option (option (list string)) :=
  match l with
  | [] => None
  | (k, v) :: l' =>
      match lastWrite key l' with
      | Some x => Some x
      | None => if decide (canon k = key) then Some (written v) else None
      end
  end.

(** No two names of the mapping have the same canonical form. *)
Definition distinctCanonical (mapping : gmap string string) : bool :=
  bool_decide (NoDup (canon <$> (map_to_list mapping).*1)).

(** An [int64]. *)
Definition isInt64 (x : Z) : Prop := - 2 ^ 63 <= x < 2 ^ 63.

(** ** Sample configurations and requests *)

Definition sampleMapping : gmap string string :=
  {[ "X-A" := "1"; "x-b" := "" ]}.

(** Two names that differ as map keys and agree as header names. *)
Definition clashMapping : gmap string string :=
  {[ "x-a" := "1"; "X-A" := "2" ]}.

Definition corsOptions (allowOrigin : string) (exposeHeaders : list string)
    (maxAge : Z) : HeaderOptions :=
  {| CustomRequestHeaders := sampleMapping;
     CustomResponseHeaders := {[ "X-Custom-Response-Header" := "test_response" ]};
     AccessControlAllowCredentials := true;
     AccessControlAllowHeaders := ["X-Foo"];
     AccessControlAllowMethods := ["GET"; "PUT"];
     AccessControlAllowOrigin := allowOrigin;
     AccessControlExposeHeaders := exposeHeaders;
     AccessControlMaxAge := maxAge |}.

Definition instanceOf (o : HeaderOptions) : HeaderStruct :=
  {| opt := o; originHeader := "" |}.

Definition requestFrom (method origin : string) : http.Request :=
  {| http.Method := method;
     http.ReqHeader :=
       {[ "Origin" := [origin];
          "Access-Control-Request-Method" := ["GET"];
          "Access-Control-Request-Headers" := ["X-Foo"] ]} |}.

Definition frontendHeaders (allowOrigin : string) : types.Headers :=
  {| types.CustomRequestHeaders := ∅;
     types.CustomResponseHeaders := ∅;
     types.AccessControlAllowCredentials := false;
     types.AccessControlAllowHeaders := [];
     types.AccessControlAllowMethods := [];
     types.AccessControlAllowOrigin := allowOrigin;
     types.AccessControlExposeHeaders := [];
     types.AccessControlMaxAge := 0 |}.

(** CORS settings alone, no custom header. *)
Definition corsOnlyOptions : HeaderOptions :=
  {| CustomRequestHeaders := ∅;
     CustomResponseHeaders := ∅;
     AccessControlAllowCredentials := false;
     AccessControlAllowHeaders := [];
     AccessControlAllowMethods := [];
     AccessControlAllowOrigin := "*";
     AccessControlExposeHeaders := [];
     AccessControlMaxAge := 0 |}.

(** * Properties *)

(** Two header names written out in full are different strings. *)
Ltac names_differ := vm_compute; discriminate.

Example canonical_lower :
  textproto.CanonicalMIMEHeaderKey "accept-encoding" = "Accept-Encoding".
Proof. reflexivity. Qed.

Example canonical_space :
  textproto.CanonicalMIMEHeaderKey "accept encoding" = "accept encoding".
Proof. reflexivity. Qed.

Example itoa_600 : strconv.Itoa 600 = "600".
Proof. reflexivity. Qed.

Example itoa_0 : strconv.Itoa 0 = "0".
Proof. reflexivity. Qed.

Example itoa_neg : strconv.Itoa (-12) = "-12".
Proof. reflexivity. Qed.

Example join_three : strings.Join ["a"; "b"; "c"] "," = "a,b,c".
Proof. reflexivity. Qed.

(** ** The order of a [range] loop *)

Section Range.

Lemma rangeMap_perm seed : ∀ m, rangeMap seed m ≡ₚ map_to_list m.
Proof.
  induction seed as [|k seed IH]; intros m; simpl; [done|].
  destruct (m !! k) as [v|] eqn:Hk; [|apply IH].
  rewrite IH. by apply map_to_list_delete.
Qed.

Lemma rangeMap_complete (o : list (string * string)) :
  ∀ m, o ≡ₚ map_to_list m → rangeMap o.*1 m = o.
Proof.
  induction o as [|[k v] o IH]; intros m Hp; simpl.
  - symmetry. by apply Permutation_nil_l in Hp.
  - assert (m !! k = Some v) as Hk.
    { apply elem_of_map_to_list. rewrite <-Hp. left. }
    rewrite Hk. f_equal. apply IH.
    apply (Permutation_cons_inv (a := (k, v))).
    rewrite Hp. symmetry. by apply map_to_list_delete.
Qed.

Lemma rangeMap_elem_of seed m k v :
  (k, v) ∈ rangeMap seed m ↔ m !! k = Some v.
Proof. by rewrite rangeMap_perm, elem_of_map_to_list. Qed.

End Range.

(** ** The header loop, one entry at a time *)

Section Loop.

Implicit Types (h : http.Header) (l : list (string * string)).

Lemma setOrDel_lookup h k v key :
  setOrDel h (k, v) !! key =
  if decide (canon k = key) then written v else h !! key.
Proof.
  unfold setOrDel, written, http.Del, http.Set_; simpl.
  destruct (decide (v = "")), (decide (canon k = key)); subst;
    simplify_map_eq; done.
Qed.

Lemma foldl_setOrDel_lookup l : ∀ h key,
  foldl setOrDel h l !! key = default (h !! key) (lastWrite key l).
Proof.
  induction l as [|[k v] l IH]; intros h key; simpl; [done|].
  rewrite IH, setOrDel_lookup.
  destruct (lastWrite key l); simpl; [done|].
  by destruct (decide (canon k = key)).
Qed.

Lemma lastWrite_None key l :
  lastWrite key l = None ↔ key ∉ canon <$> l.*1.
Proof.
  induction l as [|[k v] l IH]; simpl.
  - split; [intros _; apply not_elem_of_nil | done].
  - rewrite not_elem_of_cons, <-IH.
    destruct (lastWrite key l) as [x|].
    + split; [discriminate | intros [_ ?]; discriminate].
    + destruct (decide (canon k = key)) as [->|Hne].
      * split; [discriminate | intros [? _]; done].
      * split; [intros _; split; [congruence | done] | done].
Qed.

Lemma lastWrite_perm_None key l1 l2 :
  l1 ≡ₚ l2 → lastWrite key l1 = None → lastWrite key l2 = None.
Proof. rewrite !lastWrite_None. intros Hp. by rewrite Hp. Qed.

Lemma lastWrite_NoDup l k v :
  NoDup (canon <$> l.*1) → (k, v) ∈ l →
  lastWrite (canon k) l = Some (written v).
Proof.
  induction l as [|[k0 v0] l IH]; simpl; intros Hnd Hin.
  - by apply elem_of_nil in Hin.
  - apply NoDup_cons in Hnd as [Hfresh Hnd].
    apply elem_of_cons in Hin as [Heq|Hin].
    + inversion Heq; subst k0 v0.
      apply lastWrite_None in Hfresh. rewrite Hfresh.
      by rewrite decide_True.
    + by rewrite (IH Hnd Hin).
Qed.

Lemma lastWrite_perm l1 l2 key :
  NoDup (canon <$> l1.*1) → l1 ≡ₚ l2 → lastWrite key l1 = lastWrite key l2.
Proof.
  intros Hnd Hp.
  destruct (lastWrite key l1) as [x|] eqn:H1.
  - assert (key ∈ canon <$> l1.*1) as Hin.
    { destruct (decide (key ∈ canon <$> l1.*1)) as [|Hn]; [done|].
      apply lastWrite_None in Hn. congruence. }
    apply list_elem_of_fmap in Hin as (k & -> & Hin).
    apply list_elem_of_fmap in Hin as ([k' v] & -> & Hin). simpl in *.
    rewrite (lastWrite_NoDup l1 k' v Hnd Hin) in H1.
    rewrite (lastWrite_NoDup l2 k' v); [done| by rewrite <-Hp | by rewrite <-Hp].
  - symmetry. by apply (lastWrite_perm_None key l1 l2).
Qed.

Lemma foldl_setOrDel_twice l1 l2 h :
  l1 ≡ₚ l2 → foldl setOrDel (foldl setOrDel h l1) l2 = foldl setOrDel h l2.
Proof.
  intros Hp. apply map_eq. intros key.
  rewrite !foldl_setOrDel_lookup.
  destruct (lastWrite key l2) eqn:H2; simpl; [done|].
  by rewrite (lastWrite_perm_None key l2 l1).
Qed.

Lemma applyHeaders_untouched seed h mapping key :
  (∀ name, is_Some (mapping !! name) → canon name ≠ key) →
  applyHeaders seed h mapping !! key = h !! key.
Proof.
  intros Hfree. unfold applyHeaders. rewrite foldl_setOrDel_lookup.
  replace (lastWrite key (rangeMap seed mapping)) with
    (@None (option (list string))); [done|].
  symmetry. apply lastWrite_None. intros Hin.
  apply list_elem_of_fmap in Hin as (k & -> & Hin).
  apply list_elem_of_fmap in Hin as ([k' v] & -> & Hin). simpl in *.
  apply rangeMap_elem_of in Hin. by apply (Hfree k').
Qed.

Lemma get_written h name value :
  h !! canon name = written value → http.Get h name = value.
Proof.
  unfold http.Get, written. intros ->. by destruct (decide (value = "")).
Qed.

Lemma applyHeaders_written seed h mapping name value :
  NoDup (canon <$> (map_to_list mapping).*1) →
  mapping !! name = Some value →
  applyHeaders seed h mapping !! canon name = written value.
Proof.
  intros Hnd Hin. unfold applyHeaders. rewrite foldl_setOrDel_lookup.
  rewrite (lastWrite_NoDup _ name value); [done| |by apply rangeMap_elem_of].
  by rewrite rangeMap_perm.
Qed.

Lemma applyHeaders_any_order seed seed' h mapping :
  NoDup (canon <$> (map_to_list mapping).*1) →
  applyHeaders seed' h mapping = applyHeaders seed h mapping.
Proof.
  intros Hnd. apply map_eq. intros key. unfold applyHeaders.
  rewrite !foldl_setOrDel_lookup.
  rewrite (lastWrite_perm (rangeMap seed' mapping) (rangeMap seed mapping));
    [done| by rewrite rangeMap_perm | by rewrite !rangeMap_perm].
Qed.

Lemma lastWrite_Some key l x :
  lastWrite key l = Some x →
  ∃ k v, (k, v) ∈ l ∧ canon k = key ∧ x = written v.
Proof.
  induction l as [|[k v] l IH]; simpl; [done|].
  destruct (lastWrite key l) as [y|].
  - intros [= <-]. destruct (IH eq_refl) as (k' & v' & Hin & Hk & Hx).
    exists k', v'. split; [by right | done].
  - destruct (decide (canon k = key)) as [Hk|]; [|done].
    intros [= <-]. exists k, v. split; [left | done].
Qed.

Lemma applyHeaders_cases seed h mapping key :
  ((∀ name, is_Some (mapping !! name) → canon name ≠ key)
   ∧ applyHeaders seed h mapping !! key = h !! key)
  ∨ (∃ name value,
       mapping !! name = Some value ∧ canon name = key
       ∧ applyHeaders seed h mapping !! key = written value).
Proof.
  unfold applyHeaders. rewrite foldl_setOrDel_lookup.
  destruct (lastWrite key (rangeMap seed mapping)) as [x|] eqn:Hl; simpl.
  - right. destruct (lastWrite_Some _ _ _ Hl) as (k & v & Hin & Hk & ->).
    apply rangeMap_elem_of in Hin. by exists k, v.
  - left. split; [|done].
    intros name [v Hv] Hname. apply lastWrite_None in Hl. apply Hl.
    apply list_elem_of_fmap. exists name. split; [done|].
    apply list_elem_of_fmap. exists (name, v). split; [done|].
    by apply rangeMap_elem_of.
Qed.

End Loop.

(** ** Header sets *)

Section Headers.

Implicit Types (h w : http.Header).

Lemma Add_lookup h key v k :
  http.Add h key v !! k =
  if decide (canon key = k) then Some (default [] (h !! k) ++ [v])%list
  else h !! k.
Proof.
  unfold http.Add; simpl. destruct (decide (canon key = k)) as [->|Hne].
  - by rewrite lookup_insert_eq.
  - by rewrite lookup_insert_ne.
Qed.

Lemma Add_lookup_ne h key v k :
  canon key ≠ k → http.Add h key v !! k = h !! k.
Proof. intros Hne. rewrite Add_lookup. by rewrite decide_False. Qed.

Lemma Set_lookup h key v k :
  http.Set_ h key v !! k = if decide (canon key = k) then Some [v] else h !! k.
Proof.
  unfold http.Set_. destruct (decide (canon key = k)) as [->|Hne].
  - by rewrite lookup_insert_eq.
  - by rewrite lookup_insert_ne.
Qed.

Lemma Set_lookup_ne h key v k :
  canon key ≠ k → http.Set_ h key v !! k = h !! k.
Proof. intros Hne. rewrite Set_lookup. by rewrite decide_False. Qed.

End Headers.

Lemma int_of_int64_id x : isInt64 x → strconv.int_of_int64 x = x.
Proof.
  unfold isInt64, strconv.int_of_int64, strconv.intSize.
  change (2 ^ (64 - 1)) with 9223372036854775808.
  change (2 ^ 64) with 18446744073709551616.
  change (2 ^ 63) with 9223372036854775808.
  intros Hx. rewrite Z.mod_small; lia.
Qed.

Lemma isPreflight_read s r :
  isPreflight (setOriginHeader s (http.Get (http.ReqHeader r) "Origin"))
    (http.Get (http.ReqHeader r) "Access-Control-Request-Method")
    (http.Get (http.ReqHeader r) "Access-Control-Request-Headers") r = true
  ↔ preflightRequest r.
Proof.
  unfold isPreflight, preflightRequest, http.MethodOptions; simpl.
  rewrite !andb_true_iff, !negb_true_iff, !bool_decide_eq_false,
    bool_decide_eq_true.
  tauto.
Qed.

Lemma ServeHTTP_preflight seed s w r next :
  preflightRequest r →
  ServeHTTP seed s w r next
  = preflight (setOriginHeader s (http.Get (http.ReqHeader r) "Origin")) w r.
Proof.
  intros Hp. apply isPreflight_read with (s := s) in Hp.
  unfold ServeHTTP, readRequest, respond. by rewrite Hp.
Qed.

Lemma ServeHTTP_forward seed s w r next :
  ¬ preflightRequest r →
  ServeHTTP seed s w r next
  = forward seed (setOriginHeader s (http.Get (http.ReqHeader r) "Origin")) w r next.
Proof.
  intros Hp. rewrite <-(isPreflight_read s) in Hp.
  apply not_true_is_false in Hp.
  unfold ServeHTTP, readRequest, respond. by rewrite Hp.
Qed.

Lemma preflight_max_age s w r :
  out_w (preflight s w r) !! "Access-Control-Max-Age"
  = Some (default [] (w !! "Access-Control-Max-Age")
          ++ [strconv.Itoa (strconv.int_of_int64 (AccessControlMaxAge (opt s)))])%list.
Proof.
  unfold preflight. destruct (getAllowOrigin s) as [allowOrigin err]. simpl.
  rewrite Add_lookup, decide_True by reflexivity.
  do 3 f_equal.
  repeat match goal with
  | |- context [if ?b then _ else _] => destruct b
  end; rewrite ?Add_lookup_ne by names_differ; reflexivity.
Qed.

Lemma preflight_trace s w r w0 r0 : CallNext w0 r0 ∉ out_trace (preflight s w r).
Proof.
  unfold preflight. destruct (getAllowOrigin s) as [allowOrigin [e|]]; simpl.
  - intros Hin. apply list_elem_of_singleton in Hin. discriminate.
  - apply not_elem_of_nil.
Qed.

Lemma preflight_ne_forward seed s w r next :
  preflight s w r ≠ forward seed s w r next.
Proof.
  intros Heq. destruct next as [f|].
  - pose proof (preflight_trace s w r w (ModifyRequestHeaders seed s r)) as Hn.
    rewrite Heq in Hn. apply Hn. unfold forward.
    destruct (f w (ModifyRequestHeaders seed s r)). simpl. left.
  - apply (f_equal (λ o, out_w o !! "Access-Control-Max-Age")) in Heq.
    rewrite preflight_max_age in Heq. simpl in Heq.
    destruct (w !! "Access-Control-Max-Age") as [vs|]; simpl in Heq; [|done].
    inversion Heq as [Hl]. apply (f_equal length) in Hl.
    rewrite length_app in Hl. simpl in Hl. lia.
Qed.

(** ** Origin resolution and joined lists *)

Lemma Join_comma_empty (a : list string) :
  strings.Join a "," = "" ↔ a = [] ∨ a = [""].
Proof.
  destruct a as [|x [|y a]]; simpl.
  - split; [by left | done].
  - split; [intros ->; by right | intros [H|H]; [done | by inversion H]].
  - split; [|intros [H|H]; discriminate].
    intros H. destruct x; discriminate.
Qed.

Lemma getAllowOrigin_error s :
  (getAllowOrigin s).2 ≠ None
  ↔ AccessControlAllowOrigin (opt s) ≠ "origin-list-or-null"
    ∧ AccessControlAllowOrigin (opt s) ≠ "*".
Proof.
  unfold getAllowOrigin.
  destruct (decide (AccessControlAllowOrigin (opt s) = "origin-list-or-null"))
    as [Hc|Hc].
  - destruct (decide (originHeader s = "")); simpl; split; try done;
      intros [? _]; done.
  - destruct (decide (AccessControlAllowOrigin (opt s) = "*")) as [Hs|Hs];
      simpl; split; try done. intros [_ ?]; done.
Qed.

Lemma getAllowOrigin_resolved s :
  (getAllowOrigin s).2 = None → (getAllowOrigin s).1 ≠ "".
Proof.
  unfold getAllowOrigin.
  repeat case_decide; simpl; try done.
Qed.


(** * The claims *)

(** C1. For every incoming request, [ServeHTTP] takes its preflight branch
    if and only if the method is exactly OPTIONS and the headers
    Access-Control-Request-Method, Access-Control-Request-Headers and Origin
    are all non-empty; otherwise it takes the other branch.  The two
    branches never give the same outcome, so the outcome tells which one
    ran. *)
Theorem ServeHTTP_branch seed s w r next :
  let s' := setOriginHeader s (http.Get (http.ReqHeader r) "Origin") in
  (ServeHTTP seed s w r next = preflight s' w r ↔ preflightRequest r)
  ∧ (ServeHTTP seed s w r next = forward seed s' w r next
     ↔ ¬ preflightRequest r).
Proof.
  intros s'. destruct (decide (preflightRequest r)) as [Hp|Hp].
  - rewrite (ServeHTTP_preflight _ _ _ _ _ Hp). fold s'.
    split; split; try done.
    intros Heq. by apply preflight_ne_forward in Heq.
  - rewrite (ServeHTTP_forward _ _ _ _ _ Hp). fold s'.
    split; split; try done.
    intros Heq. symmetry in Heq. by apply preflight_ne_forward in Heq.
Qed.

Lemma ServeHTTP_branch_witness :
  preflightRequest (requestFrom "OPTIONS" "https://a.test")
  ∧ ServeHTTP [] (instanceOf (corsOptions "*" [] 600)) ∅
      (requestFrom "OPTIONS" "https://a.test") None
    = preflight
        (setOriginHeader (instanceOf (corsOptions "*" [] 600)) "https://a.test")
        ∅ (requestFrom "OPTIONS" "https://a.test").
Proof.
  assert (preflightRequest (requestFrom "OPTIONS" "https://a.test")) as Hp.
  { vm_compute. repeat split; discriminate. }
  split; [exact Hp|].
  exact (proj2 (proj1 (ServeHTTP_branch [] (instanceOf (corsOptions "*" [] 600))
                         ∅ (requestFrom "OPTIONS" "https://a.test") None)) Hp).
Defined.

(** C2. On the preflight branch [next] is never called.  On the other
    branch the custom request headers are applied to the request, and then
    [next] is called once, with the response writer and the mutated
    request, when it is not nil; when it is nil nothing else happens.  The
    mutated request has the method it came with; each of its headers is
    either one that no configured name denotes, left as it came, or one
    that a configured pair decides alone, absent for the empty value and
    holding that single value otherwise; and when the configured names have
    distinct canonical forms, every configured pair is the one that decides
    its header, so [Get] answers the configured value. *)
Theorem ServeHTTP_next seed s w r next :
  (preflightRequest r →
     ∀ w0 r0, CallNext w0 r0 ∉ out_trace (ServeHTTP seed s w r next))
  ∧ (¬ preflightRequest r →
     let custom := CustomRequestHeaders (opt s) in
     let r1 := ModifyRequestHeaders seed s r in
     let out := ServeHTTP seed s w r next in
     match next with
     | Some f =>
         out_trace out = [CallNext w r1] ∧ (out_w out, out_r out) = f w r1
     | None => out_trace out = [] ∧ out_w out = w ∧ out_r out = r1
     end
     ∧ http.Method r1 = http.Method r
     ∧ (∀ key,
          ((∀ name, is_Some (custom !! name) → canon name ≠ key)
           ∧ http.ReqHeader r1 !! key = http.ReqHeader r !! key)
          ∨ (∃ name value,
               custom !! name = Some value ∧ canon name = key
               ∧ http.ReqHeader r1 !! key = written value))
     ∧ (distinctCanonical custom = true →
        ∀ name value, custom !! name = Some value →
          http.ReqHeader r1 !! canon name = written value
          ∧ http.Get (http.ReqHeader r1) name = value)).
Proof.
  split; intros Hp.
  - intros w0 r0. rewrite (ServeHTTP_preflight _ _ _ _ _ Hp).
    apply preflight_trace.
  - intros custom r1 out. split; [|split; [done|split]].
    + unfold out. rewrite (ServeHTTP_forward _ _ _ _ _ Hp).
      unfold forward.
      change (ModifyRequestHeaders seed (setOriginHeader s _) r) with r1.
      destruct next as [f|]; [|done].
      by destruct (f w r1).
    + intros key. apply applyHeaders_cases.
    + intros Hd name value Hin. apply bool_decide_eq_true in Hd.
      pose proof (applyHeaders_written seed (http.ReqHeader r) _ _ _ Hd Hin)
        as Hw.
      split; [exact Hw | by apply get_written].
Qed.

Lemma ServeHTTP_next_witness :
  let s := instanceOf (corsOptions "*" [] 600) in
  let r := requestFrom "GET" "https://a.test" in
  let handler : http.HandlerFunc := λ w r, (http.Set_ w "X-Seen" "yes", r) in
  ¬ preflightRequest r
  ∧ distinctCanonical (CustomRequestHeaders (opt s)) = true
  ∧ out_trace (ServeHTTP [] s ∅ r (Some handler))
    = [CallNext ∅ (ModifyRequestHeaders [] s r)]
  ∧ http.Get (http.ReqHeader (ModifyRequestHeaders [] s r)) "X-A" = "1"
  ∧ http.Get (http.ReqHeader (ModifyRequestHeaders [] s r)) "x-b" = "".
Proof.
  intros s r handler.
  assert (¬ preflightRequest r) as Hn.
  { intros [Hm _]. vm_compute in Hm. discriminate. }
  assert (distinctCanonical (CustomRequestHeaders (opt s)) = true) as Hd.
  { vm_compute; reflexivity. }
  destruct (proj2 (ServeHTTP_next [] s ∅ r (Some handler)) Hn)
    as ([Htrace _] & _ & _ & Hpairs).
  split; [exact Hn|]. split; [exact Hd|]. split; [exact Htrace|].
  split.
  - apply (Hpairs Hd "X-A" "1"). vm_compute; reflexivity.
  - apply (Hpairs Hd "x-b" ""). vm_compute; reflexivity.
Defined.

(** C3. [getAllowOrigin] depends on the configured allow-origin and on the
    captured origin only.  With "origin-list-or-null" it returns "null" for
    an empty captured origin and the captured origin itself otherwise; with
    "*" it returns "*" whatever the captured origin; with any other setting
    it fails with an error that carries the setting, whatever the captured
    origin. *)
Theorem getAllowOrigin_cases s :
  let config := AccessControlAllowOrigin (opt s) in
  let origin := originHeader s in
  (config = "origin-list-or-null" → origin = "" →
     getAllowOrigin s = ("null", None))
  ∧ (config = "origin-list-or-null" → origin ≠ "" →
     getAllowOrigin s = (origin, None))
  ∧ (config = "*" → getAllowOrigin s = ("*", None))
  ∧ (config ≠ "origin-list-or-null" → config ≠ "*" →
     getAllowOrigin s
     = ("", Some ("invalid Access-Control-Allow-Origin setting: " ++ config)))
  ∧ (∀ s', AccessControlAllowOrigin (opt s') = config →
     originHeader s' = origin → getAllowOrigin s' = getAllowOrigin s).
Proof.
  intros config origin. subst config origin. unfold getAllowOrigin.
  repeat split.
  - intros Hc Ho. by rewrite Hc, Ho.
  - intros Hc Ho. rewrite Hc. simpl. by rewrite decide_False.
  - intros Hc. by rewrite Hc.
  - intros H1 H2. by rewrite !decide_False.
  - intros s' Hc Ho. by rewrite Hc, Ho.
Qed.

Lemma getAllowOrigin_cases_witness :
  getAllowOrigin
    {| opt := corsOptions "bogus" [] 0; originHeader := "https://a.test" |}
  = ("", Some "invalid Access-Control-Allow-Origin setting: bogus").
Proof.
  destruct (getAllowOrigin_cases
    {| opt := corsOptions "bogus" [] 0; originHeader := "https://a.test" |})
    as (_ & _ & _ & Hbad & _).
  apply Hbad; vm_compute; discriminate.
Defined.

(** C4. On the preflight branch Access-Control-Max-Age receives one more
    value, the decimal string of the configured max age, on every response,
    zero included.  When origin resolution fails the error is only logged:
    Access-Control-Allow-Origin is left as it was, and the response header
    set is the one built before the failure (credentials, allowed headers,
    allowed methods) with the max age added. *)
Theorem preflight_degraded seed s w r next :
  preflightRequest r →
  isInt64 (AccessControlMaxAge (opt s)) →
  let out := ServeHTTP seed s w r next in
  let config := AccessControlAllowOrigin (opt s) in
  let maxAge := strconv.Itoa (AccessControlMaxAge (opt s)) in
  let w1 :=
    if AccessControlAllowCredentials (opt s)
    then http.Add w "Access-Control-Allow-Credentials" "true" else w in
  let allowHeaders := strings.Join (AccessControlAllowHeaders (opt s)) "," in
  let w2 :=
    if decide (allowHeaders = "") then w1
    else http.Add w1 "Access-Control-Allow-Headers" allowHeaders in
  let allowMethods := strings.Join (AccessControlAllowMethods (opt s)) "," in
  let w3 :=
    if decide (allowMethods = "") then w2
    else http.Add w2 "Access-Control-Allow-Methods" allowMethods in
  out_w out !! "Access-Control-Max-Age"
    = Some (default [] (w !! "Access-Control-Max-Age") ++ [maxAge])%list
  ∧ (config ≠ "origin-list-or-null" → config ≠ "*" →
     out_trace out
       = [Debugf ("Preflight error with Access-Control-Allow-Origin: "
                  ++ invalidAllowOrigin config)]
     ∧ out_w out !! "Access-Control-Allow-Origin"
       = w !! "Access-Control-Allow-Origin"
     ∧ out_w out = http.Add w3 "Access-Control-Max-Age" maxAge).
Proof.
  intros Hp Hage out config maxAge w1 allowHeaders w2 allowMethods w3.
  unfold out. rewrite (ServeHTTP_preflight _ _ _ _ _ Hp).
  set (s' := setOriginHeader s _).
  split.
  - rewrite preflight_max_age. simpl. by rewrite int_of_int64_id.
  - intros H1 H2.
    assert (out_trace (preflight s' w r)
              = [Debugf ("Preflight error with Access-Control-Allow-Origin: "
                         ++ invalidAllowOrigin config)]
            ∧ out_w (preflight s' w r)
              = http.Add w3 "Access-Control-Max-Age" maxAge) as [Ht Hw].
    { unfold preflight, getAllowOrigin. simpl. fold config.
      rewrite !decide_False by done. simpl.
      rewrite int_of_int64_id by done. done. }
    split; [done|]. split; [|done].
    rewrite Hw. rewrite Add_lookup_ne by names_differ.
    unfold w3, w2, w1.
    repeat match goal with
    | |- context [if ?b then _ else _] => destruct b
    end; rewrite ?Add_lookup_ne by names_differ; reflexivity.
Qed.

Lemma preflight_degraded_witness :
  preflightRequest (requestFrom "OPTIONS" "https://a.test")
  ∧ isInt64 0
  ∧ out_w (ServeHTTP [] (instanceOf (corsOptions "bogus" [] 0)) ∅
            (requestFrom "OPTIONS" "https://a.test") None)
      !! "Access-Control-Max-Age" = Some ["0"].
Proof.
  assert (preflightRequest (requestFrom "OPTIONS" "https://a.test")) as Hp.
  { vm_compute. repeat split; discriminate. }
  assert (isInt64 0) as Hz.
  { vm_compute. split; [discriminate | reflexivity]. }
  split; [exact Hp|]. split; [exact Hz|].
  exact (proj1 (preflight_degraded [] (instanceOf (corsOptions "bogus" [] 0)) ∅
                  (requestFrom "OPTIONS" "https://a.test") None Hp Hz)).
Defined.

(** C5 (amended). [ModifyResponseHeaders] returns an error if and only if
    the configured allow-origin is neither "origin-list-or-null" nor "*".
    On success Access-Control-Allow-Origin holds the resolved origin and
    nothing else, Access-Control-Allow-Credentials holds "true" exactly when
    credentials are allowed, and Access-Control-Expose-Headers holds the
    comma-joined list exactly when the joined string is non-empty, that is
    when the list is neither empty nor the single empty string; a header
    that is not set keeps what the custom response headers left there. *)
Theorem ModifyResponseHeaders_result seed s res :
  let h0 :=
    applyHeaders seed (http.ResHeader res) (CustomResponseHeaders (opt s)) in
  let out := ModifyResponseHeaders seed s res in
  let config := AccessControlAllowOrigin (opt s) in
  let exposeHeaders := strings.Join (AccessControlExposeHeaders (opt s)) "," in
  (out.2 ≠ None ↔ config ≠ "origin-list-or-null" ∧ config ≠ "*")
  ∧ (exposeHeaders = "" ↔
       AccessControlExposeHeaders (opt s) = []
       ∨ AccessControlExposeHeaders (opt s) = [""])
  ∧ (out.2 = None →
     http.ResHeader out.1 !! "Access-Control-Allow-Origin"
       = Some [(getAllowOrigin s).1]
     ∧ http.ResHeader out.1 !! "Access-Control-Allow-Credentials"
       = (if AccessControlAllowCredentials (opt s) then Some ["true"]
          else h0 !! "Access-Control-Allow-Credentials")
     ∧ http.ResHeader out.1 !! "Access-Control-Expose-Headers"
       = (if decide (exposeHeaders = "")
          then h0 !! "Access-Control-Expose-Headers"
          else Some [exposeHeaders])
     ∧ ∀ key, key ≠ "Access-Control-Allow-Origin" →
         key ≠ "Access-Control-Allow-Credentials" →
         key ≠ "Access-Control-Expose-Headers" →
         http.ResHeader out.1 !! key = h0 !! key).
Proof.
  intros h0 out config exposeHeaders.
  split; [|split; [apply Join_comma_empty|]].
  - unfold config. rewrite <-getAllowOrigin_error.
    unfold out, ModifyResponseHeaders.
    by destruct (getAllowOrigin s) as [a [e|]].
  - unfold out, ModifyResponseHeaders. fold h0 exposeHeaders.
    pose proof (getAllowOrigin_resolved s) as Hres.
    destruct (getAllowOrigin s) as [a [e|]]; simpl; [done|].
    intros _. specialize (Hres eq_refl). simpl in Hres.
    rewrite (decide_False (P := a = "")) by done.
    repeat split.
    + destruct (decide (exposeHeaders = "")),
        (AccessControlAllowCredentials (opt s));
        rewrite ?Set_lookup_ne by names_differ;
        by rewrite Set_lookup, decide_True.
    + destruct (decide (exposeHeaders = "")),
        (AccessControlAllowCredentials (opt s));
        rewrite ?(Set_lookup_ne _ "Access-Control-Expose-Headers")
          by names_differ;
        rewrite ?(Set_lookup _ "Access-Control-Allow-Credentials"),
          ?decide_True by reflexivity;
        rewrite ?Set_lookup_ne by names_differ; done.
    + destruct (decide (exposeHeaders = "")),
        (AccessControlAllowCredentials (opt s));
        rewrite ?(Set_lookup _ "Access-Control-Expose-Headers"),
          ?decide_True by reflexivity;
        rewrite ?Set_lookup_ne by names_differ; done.
    + intros key K1 K2 K3.
      destruct (decide (exposeHeaders = "")),
        (AccessControlAllowCredentials (opt s));
        rewrite ?Set_lookup_ne; try done.
Qed.

Lemma ModifyResponseHeaders_result_witness :
  let out :=
    ModifyResponseHeaders [] (instanceOf (corsOptions "*" ["X-A"; "X-B"] 600))
      {| http.ResHeader :=
           {[ "Access-Control-Allow-Origin" := ["old"; "older"] ]} |} in
  out.2 = None
  ∧ http.ResHeader out.1 !! "Access-Control-Allow-Origin" = Some ["*"].
Proof.
  split; [vm_compute; reflexivity|].
  destruct (ModifyResponseHeaders_result []
    (instanceOf (corsOptions "*" ["X-A"; "X-B"] 600))
    {| http.ResHeader :=
         {[ "Access-Control-Allow-Origin" := ["old"; "older"] ]} |})
    as (_ & _ & Hok).
  apply Hok. vm_compute; reflexivity.
Defined.

(** The expose list [[""]] is not empty, the call succeeds, and
    Access-Control-Expose-Headers is not set. *)
Lemma ModifyResponseHeaders_expose_single_empty :
  let out :=
    ModifyResponseHeaders [] (instanceOf (corsOptions "*" [""] 600))
      {| http.ResHeader := ∅ |} in
  AccessControlExposeHeaders (corsOptions "*" [""] 600) ≠ []
  ∧ out.2 = None
  ∧ http.ResHeader out.1 !! "Access-Control-Expose-Headers" = None.
Proof.
  split; [discriminate|]. split; vm_compute; reflexivity.
Qed.

(** C6 (amended). When no two names of the mapping have the same canonical
    header form, the header loop leaves, for every pair of the mapping, no
    header under the name when the value is empty and the value alone
    (replacing, not appending) otherwise; it leaves every other header as it
    was; deleting an absent header changes nothing; and the result is the
    same for every order of the visit, in [ModifyRequestHeaders] and in
    [ModifyResponseHeaders] alike. *)
Theorem applyHeaders_distinct_names seed (target : http.Header) mapping :
  distinctCanonical mapping = true →
  (∀ name value, mapping !! name = Some value →
     applyHeaders seed target mapping !! canon name = written value
     ∧ http.Get (applyHeaders seed target mapping) name = value)
  ∧ (∀ key, (∀ name, is_Some (mapping !! name) → canon name ≠ key) →
     applyHeaders seed target mapping !! key = target !! key)
  ∧ (∀ name, target !! canon name = None →
     setOrDel target (name, "") = target)
  ∧ (∀ seed', applyHeaders seed' target mapping
              = applyHeaders seed target mapping)
  ∧ (∀ seed' s r, CustomRequestHeaders (opt s) = mapping →
     ModifyRequestHeaders seed' s r = ModifyRequestHeaders seed s r)
  ∧ (∀ seed' s res, CustomResponseHeaders (opt s) = mapping →
     ModifyResponseHeaders seed' s res = ModifyResponseHeaders seed s res).
Proof.
  intros Hd. apply bool_decide_eq_true in Hd.
  split; [|split; [|split; [|split; [|split]]]].
  - intros name value Hin.
    pose proof (applyHeaders_written seed target _ _ _ Hd Hin) as Hw.
    split; [done | by apply get_written].
  - intros key. apply applyHeaders_untouched.
  - intros name Habs. unfold setOrDel, http.Del. simpl. by apply delete_id.
  - intros seed'. by apply applyHeaders_any_order.
  - intros seed' s r <-. unfold ModifyRequestHeaders.
    by rewrite (applyHeaders_any_order seed seed').
  - intros seed' s res <-. unfold ModifyResponseHeaders.
    by rewrite (applyHeaders_any_order seed seed').
Qed.

Lemma applyHeaders_distinct_names_witness :
  distinctCanonical sampleMapping = true
  ∧ http.Get (applyHeaders ["x-b"] {[ "X-B" := ["old"] ]} sampleMapping) "x-b"
    = "".
Proof.
  split; [vm_compute; reflexivity|].
  apply (applyHeaders_distinct_names ["x-b"] {[ "X-B" := ["old"] ]}
           sampleMapping);
    vm_compute; reflexivity.
Defined.

(** The names x-a and X-A are two keys of the mapping and one header: the
    value left under it is the one visited last, whatever the mapping holds
    for the name that is read. *)
Lemma applyHeaders_order_matters :
  clashMapping !! "x-a" = Some "1"
  ∧ http.Get (applyHeaders ["x-a"; "X-A"] ∅ clashMapping) "x-a" = "2"
  ∧ http.Get (applyHeaders ["X-A"; "x-a"] ∅ clashMapping) "x-a" = "1"
  ∧ applyHeaders ["x-a"; "X-A"] ∅ clashMapping
    ≠ applyHeaders ["X-A"; "x-a"] ∅ clashMapping.
Proof.
  split; [vm_compute; reflexivity|].
  split; [vm_compute; reflexivity|]. split; [vm_compute; reflexivity|].
  intros Heq. apply (f_equal (λ h, http.Get h "x-a")) in Heq.
  vm_compute in Heq. discriminate.
Qed.

(** C7. [NewHeaderFromStruct] returns nil if and only if the options are
    nil or report neither custom headers nor CORS headers; in every other
    case it returns an instance, whatever the allow-origin value, which it
    copies unchecked. *)
Theorem NewHeaderFromStruct_nil hasCustom hasCors headers :
  (NewHeaderFromStruct hasCustom hasCors headers = None
   ↔ headers = None
     ∨ ∃ h, headers = Some h ∧ hasCustom h = false ∧ hasCors h = false)
  ∧ (∀ h, headers = Some h → hasCustom h = true ∨ hasCors h = true →
     ∃ s, NewHeaderFromStruct hasCustom hasCors headers = Some s
          ∧ AccessControlAllowOrigin (opt s)
            = types.AccessControlAllowOrigin h).
Proof.
  unfold NewHeaderFromStruct. destruct headers as [h|].
  - destruct (hasCustom h) eqn:Hc, (hasCors h) eqn:Hs; simpl; split;
      try (split; [discriminate
                  | intros [?|(h' & [= <-] & ? & ?)]; congruence]);
      try (intros h' [= <-] _; eexists; split; reflexivity).
    + split; [intros _; right; by exists h | done].
    + intros h' [= <-] [?|?]; congruence.
  - split; [split; [by left | done] | discriminate].
Qed.

Lemma NewHeaderFromStruct_nil_witness :
  NewHeaderFromStruct types.HasCustomHeadersDefined types.HasCorsHeadersDefined
    (Some (frontendHeaders "")) = None
  ∧ ∃ s,
      NewHeaderFromStruct types.HasCustomHeadersDefined
        types.HasCorsHeadersDefined (Some (frontendHeaders "bogus")) = Some s
      ∧ AccessControlAllowOrigin (opt s) = "bogus".
Proof.
  split.
  - apply (NewHeaderFromStruct_nil types.HasCustomHeadersDefined
             types.HasCorsHeadersDefined (Some (frontendHeaders ""))).
    right. exists (frontendHeaders ""). repeat split; vm_compute; reflexivity.
  - apply (proj2 (NewHeaderFromStruct_nil types.HasCustomHeadersDefined
             types.HasCorsHeadersDefined (Some (frontendHeaders "bogus")))
             (frontendHeaders "bogus") eq_refl).
    right. vm_compute; reflexivity.
Defined.

(** C8. The header loop is idempotent: run twice with the same mapping, in
    whatever order each run visits it, it leaves the header set that the
    second run alone leaves; so the header sets reachable in two runs are
    those reachable in one.  The same holds of [ModifyRequestHeaders]. *)
Theorem applyHeaders_idempotent seed1 seed2 (target : http.Header) mapping :
  applyHeaders seed2 (applyHeaders seed1 target mapping) mapping
  = applyHeaders seed2 target mapping
  ∧ ∀ s r, CustomRequestHeaders (opt s) = mapping →
      ModifyRequestHeaders seed2 s (ModifyRequestHeaders seed1 s r)
      = ModifyRequestHeaders seed2 s r.
Proof.
  assert (∀ h : http.Header,
            applyHeaders seed2 (applyHeaders seed1 h mapping) mapping
            = applyHeaders seed2 h mapping) as Hidem.
  { intros h. unfold applyHeaders. apply foldl_setOrDel_twice.
    by rewrite !rangeMap_perm. }
  split; [apply Hidem|].
  intros s r <-. unfold ModifyRequestHeaders. simpl. by rewrite Hidem.
Qed.

Lemma applyHeaders_idempotent_witness :
  ModifyRequestHeaders ["x-b"] (instanceOf (corsOptions "*" [] 600))
    (ModifyRequestHeaders [] (instanceOf (corsOptions "*" [] 600))
       (requestFrom "GET" "https://a.test"))
  = ModifyRequestHeaders ["x-b"] (instanceOf (corsOptions "*" [] 600))
      (requestFrom "GET" "https://a.test").
Proof.
  apply (applyHeaders_idempotent [] ["x-b"] ∅ sampleMapping).
  vm_compute; reflexivity.
Defined.

(** C9. The origin that [ServeHTTP] captures is kept in a field of the
    instance that all invocations share.  With "origin-list-or-null"
    configured: after request A (origin a.test) and then request B (origin
    b.test) have entered [ServeHTTP], the response to A modified by
    [ModifyResponseHeaders] carries B's origin; and when B's reads fall
    between A's reads and A's answer, the preflight answer to A carries B's
    origin. *)
Theorem originHeader_shared :
  let s0 := instanceOf (corsOptions "origin-list-or-null" [] 600) in
  let a := requestFrom "GET" "https://a.test" in
  let b := requestFrom "GET" "https://b.test" in
  let pa := requestFrom "OPTIONS" "https://a.test" in
  let pb := requestFrom "OPTIONS" "https://b.test" in
  (let sa := out_s (ServeHTTP [] s0 ∅ a None) in
   let sb := out_s (ServeHTTP [] sa ∅ b None) in
   http.Get
     (http.ResHeader (ModifyResponseHeaders [] sb {| http.ResHeader := ∅ |}).1)
     "Access-Control-Allow-Origin" = "https://b.test")
  ∧ (let '(sa, methodA, headersA) := readRequest s0 pa in
     let '(sb, methodB, headersB) := readRequest sa pb in
     http.Get (out_w (respond [] sb methodA headersA ∅ pa None))
       "Access-Control-Allow-Origin" = "https://b.test").
Proof. split; vm_compute; reflexivity. Qed.

(** C10. [ModifyResponseHeaders] is not atomic on error: when it returns
    an error, the error is the invalid allow-origin one, and the response
    header set is exactly what the custom response headers make of it
    (deletions and overwriting sets applied), with no CORS header set on
    top: a header that no custom name writes is as it was in the
    response. *)
Theorem ModifyResponseHeaders_error seed s res err :
  (ModifyResponseHeaders seed s res).2 = Some err →
  let h' := http.ResHeader (ModifyResponseHeaders seed s res).1 in
  err = invalidAllowOrigin (AccessControlAllowOrigin (opt s))
  ∧ h' = applyHeaders seed (http.ResHeader res) (CustomResponseHeaders (opt s))
  ∧ (∀ name value, distinctCanonical (CustomResponseHeaders (opt s)) = true →
       CustomResponseHeaders (opt s) !! name = Some value →
       h' !! canon name = written value)
  ∧ (∀ key, (∀ name, is_Some (CustomResponseHeaders (opt s) !! name) →
               canon name ≠ key) →
       h' !! key = http.ResHeader res !! key).
Proof.
  intros Herr h'.
  assert (err = invalidAllowOrigin (AccessControlAllowOrigin (opt s))
          ∧ h' = applyHeaders seed (http.ResHeader res)
                   (CustomResponseHeaders (opt s))) as [He Hh].
  { unfold h'. revert Herr. unfold ModifyResponseHeaders, getAllowOrigin.
    repeat case_decide; simpl; try discriminate.
    intros [= <-]. done. }
  split; [done|]. split; [done|]. rewrite Hh. split.
  - intros name value Hd Hin.
    apply bool_decide_eq_true in Hd. by apply applyHeaders_written.
  - intros key. apply applyHeaders_untouched.
Qed.

Lemma ModifyResponseHeaders_error_witness :
  let out :=
    ModifyResponseHeaders [] (instanceOf (corsOptions "bogus" ["X-A"] 0))
      {| http.ResHeader := {[ "X-Custom-Response-Header" := ["old"] ]} |} in
  out.2 = Some "invalid Access-Control-Allow-Origin setting: bogus"
  ∧ http.ResHeader out.1
    = applyHeaders [] {[ "X-Custom-Response-Header" := ["old"] ]}
        (CustomResponseHeaders (corsOptions "bogus" ["X-A"] 0)).
Proof.
  assert ((ModifyResponseHeaders [] (instanceOf (corsOptions "bogus" ["X-A"] 0))
             {| http.ResHeader := {[ "X-Custom-Response-Header" := ["old"] ]} |}).2
          = Some "invalid Access-Control-Allow-Origin setting: bogus") as Herr.
  { vm_compute; reflexivity. }
  split; [exact Herr|].
  exact (proj1 (proj2 (ModifyResponseHeaders_error _ _ _ _ Herr))).
Defined.

(** * Further properties of the middleware *)

Ltac split_ifs :=
  repeat match goal with
  | |- context [if ?b then _ else _] => destruct b
  end.

(** ** The instance across invocations *)

Lemma preflight_instance s w r : out_s (preflight s w r) = s.
Proof. unfold preflight. by destruct (getAllowOrigin s) as [a e]. Qed.

Lemma forward_instance seed s w r next : out_s (forward seed s w r next) = s.
Proof.
  unfold forward. destruct next as [f|]; [|done].
  by destruct (f w (ModifyRequestHeaders seed s r)).
Qed.

Lemma ServeHTTP_out_s seed s w r next :
  out_s (ServeHTTP seed s w r next)
  = setOriginHeader s (http.Get (http.ReqHeader r) "Origin").
Proof.
  destruct (decide (preflightRequest r)) as [Hp|Hp].
  - rewrite (ServeHTTP_preflight _ _ _ _ _ Hp). apply preflight_instance.
  - rewrite (ServeHTTP_forward _ _ _ _ _ Hp). apply forward_instance.
Qed.

Lemma getAllowOrigin_value s a :
  getAllowOrigin s = (a, None) → a ≠ "".
Proof.
  intros Hg. pose proof (getAllowOrigin_resolved s) as Hr.
  rewrite Hg in Hr. by apply Hr.
Qed.

Lemma ModifyResponseHeaders_lookup seed s res a key :
  getAllowOrigin s = (a, None) →
  let base :=
    applyHeaders seed (http.ResHeader res) (CustomResponseHeaders (opt s)) in
  let exposeHeaders := strings.Join (AccessControlExposeHeaders (opt s)) "," in
  http.ResHeader (ModifyResponseHeaders seed s res).1 !! key
  = if decide (key = "Access-Control-Allow-Origin") then Some [a]
    else if decide (key = "Access-Control-Allow-Credentials")
    then (if AccessControlAllowCredentials (opt s) then Some ["true"]
          else base !! key)
    else if decide (key = "Access-Control-Expose-Headers")
    then (if decide (exposeHeaders = "") then base !! key
          else Some [exposeHeaders])
    else base !! key.
Proof.
  intros Hg base exposeHeaders. pose proof (getAllowOrigin_value s a Hg) as Ha.
  unfold ModifyResponseHeaders. rewrite Hg. fold base exposeHeaders. simpl.
  rewrite (decide_False (P := a = "")) by done.
  destruct (decide (key = "Access-Control-Allow-Origin")) as [->|K1].
  { split_ifs; rewrite ?Set_lookup_ne by names_differ;
      by rewrite Set_lookup, decide_True. }
  destruct (decide (key = "Access-Control-Allow-Credentials")) as [->|K2].
  { destruct (decide (exposeHeaders = ""));
      rewrite ?Set_lookup_ne by names_differ;
      destruct (AccessControlAllowCredentials (opt s));
      rewrite ?Set_lookup, ?decide_True by reflexivity;
      rewrite ?Set_lookup_ne by names_differ; done. }
  destruct (decide (key = "Access-Control-Expose-Headers")) as [->|K3].
  { destruct (decide (exposeHeaders = ""));
      rewrite ?Set_lookup, ?decide_True by reflexivity;
      destruct (AccessControlAllowCredentials (opt s));
      rewrite ?Set_lookup_ne by names_differ; done. }
  split_ifs; rewrite ?Set_lookup_ne; done.
Qed.

Lemma ModifyResponseHeaders_allow_origin seed s res a :
  getAllowOrigin s = (a, None) →
  (ModifyResponseHeaders seed s res).2 = None
  ∧ http.ResHeader (ModifyResponseHeaders seed s res).1
      !! "Access-Control-Allow-Origin" = Some [a].
Proof.
  intros Hg. split.
  - unfold ModifyResponseHeaders. by rewrite Hg.
  - by rewrite (ModifyResponseHeaders_lookup seed s res a _ Hg).
Qed.

(** X2. When [ModifyResponseHeaders] runs on the instance as [ServeHTTP]
    left it for a request, with no other request in between, it succeeds
    for both valid settings; with "origin-list-or-null" the response gets
    Access-Control-Allow-Origin set to that request's Origin, or to "null"
    when the request had none, and with "*" it gets "*". *)
Theorem ServeHTTP_then_ModifyResponseHeaders seed seed' s w r next res :
  let s' := out_s (ServeHTTP seed s w r next) in
  let origin := http.Get (http.ReqHeader r) "Origin" in
  let out := ModifyResponseHeaders seed' s' res in
  let allowOrigin := http.ResHeader out.1 !! "Access-Control-Allow-Origin" in
  (AccessControlAllowOrigin (opt s) = "origin-list-or-null" →
     out.2 = None
     ∧ allowOrigin = Some [if decide (origin = "") then "null" else origin])
  ∧ (AccessControlAllowOrigin (opt s) = "*" →
     out.2 = None ∧ allowOrigin = Some ["*"]).
Proof.
  intros s' origin out allowOrigin. unfold allowOrigin, out, s'.
  rewrite ServeHTTP_out_s. fold origin. split; intros Hc.
  - apply ModifyResponseHeaders_allow_origin.
    unfold getAllowOrigin. simpl. rewrite Hc. simpl.
    by destruct (decide (origin = "")).
  - apply ModifyResponseHeaders_allow_origin.
    unfold getAllowOrigin. simpl. by rewrite Hc.
Qed.

Lemma ServeHTTP_then_ModifyResponseHeaders_witness :
  http.ResHeader
    (ModifyResponseHeaders []
       (out_s (ServeHTTP [] (instanceOf (corsOptions "origin-list-or-null" [] 600))
                 ∅ (requestFrom "GET" "https://a.test") None))
       {| http.ResHeader := ∅ |}).1 !! "Access-Control-Allow-Origin"
  = Some ["https://a.test"].
Proof.
  apply (ServeHTTP_then_ModifyResponseHeaders []
           [] (instanceOf (corsOptions "origin-list-or-null" [] 600)) ∅
           (requestFrom "GET" "https://a.test") None {| http.ResHeader := ∅ |}).
  vm_compute; reflexivity.
Defined.

(** ** The preflight answer *)

Lemma Add_prefix (h : http.Header) name value key :
  default [] (h !! key) `prefix_of` default [] (http.Add h name value !! key).
Proof.
  rewrite Add_lookup. destruct (decide (canon name = key)); [|done].
  simpl. by apply prefix_app_r.
Qed.

Lemma Add_other (h : http.Header) name value key :
  key ≠ canon name → http.Add h name value !! key = h !! key.
Proof. intros Hne. by apply Add_lookup_ne. Qed.

(** X3. On a preflight request with a valid allow-origin setting,
    Access-Control-Allow-Origin receives exactly one more value, after those
    the response writer already held: "*" under "*", the Origin of the
    request under "origin-list-or-null".  That value is never empty, and
    nothing is logged. *)
Theorem preflight_allow_origin seed s w r next :
  preflightRequest r →
  AccessControlAllowOrigin (opt s) = "origin-list-or-null"
  ∨ AccessControlAllowOrigin (opt s) = "*" →
  let out := ServeHTTP seed s w r next in
  let allowOrigin :=
    if decide (AccessControlAllowOrigin (opt s) = "*") then "*"
    else http.Get (http.ReqHeader r) "Origin" in
  out_w out !! "Access-Control-Allow-Origin"
    = Some (default [] (w !! "Access-Control-Allow-Origin") ++ [allowOrigin])%list
  ∧ allowOrigin ≠ ""
  ∧ out_trace out = [].
Proof.
  intros Hp Hc out allowOrigin. unfold out.
  rewrite (ServeHTTP_preflight _ _ _ _ _ Hp).
  destruct Hp as (_ & _ & _ & Ho).
  set (origin := http.Get (http.ReqHeader r) "Origin") in *.
  assert (getAllowOrigin (setOriginHeader s origin) = (allowOrigin, None)
          ∧ allowOrigin ≠ "") as [Hg Hne].
  { unfold getAllowOrigin, allowOrigin. simpl.
    destruct Hc as [Hc|Hc]; rewrite Hc; simpl; [|done].
    by rewrite decide_False. }
  split; [|split; [done|]].
  - unfold preflight. rewrite Hg. simpl.
    rewrite (decide_False (P := allowOrigin = "")) by done.
    rewrite Add_lookup_ne by names_differ.
    rewrite Add_lookup, decide_True by reflexivity.
    do 3 f_equal.
    split_ifs; rewrite ?Add_lookup_ne by names_differ; reflexivity.
  - unfold preflight. by rewrite Hg.
Qed.

Lemma preflight_allow_origin_witness :
  preflightRequest (requestFrom "OPTIONS" "https://a.test")
  ∧ out_w (ServeHTTP [] (instanceOf (corsOptions "origin-list-or-null" [] 600))
             {[ "Access-Control-Allow-Origin" := ["https://old.test"] ]}
             (requestFrom "OPTIONS" "https://a.test") None)
      !! "Access-Control-Allow-Origin"
    = Some ["https://old.test"; "https://a.test"].
Proof.
  assert (preflightRequest (requestFrom "OPTIONS" "https://a.test")) as Hp.
  { vm_compute. repeat split; discriminate. }
  split; [exact Hp|].
  exact (proj1 (preflight_allow_origin []
                  (instanceOf (corsOptions "origin-list-or-null" [] 600))
                  {[ "Access-Control-Allow-Origin" := ["https://old.test"] ]}
                  (requestFrom "OPTIONS" "https://a.test") None Hp
                  (or_introl eq_refl))).
Defined.

(** X4. On a preflight request, whether or not origin resolution succeeds:
    Access-Control-Allow-Credentials receives one more value, "true", when
    credentials are allowed and is left alone otherwise;
    Access-Control-Allow-Headers and Access-Control-Allow-Methods each
    receive the comma-joined list as one more value when the joined string
    is not empty, and are left alone when it is, which is when the list is
    empty or is the single empty string. *)
Theorem preflight_conditional_headers seed s w r next :
  preflightRequest r →
  let out := ServeHTTP seed s w r next in
  let allowHeaders := strings.Join (AccessControlAllowHeaders (opt s)) "," in
  let allowMethods := strings.Join (AccessControlAllowMethods (opt s)) "," in
  let appended (name value : string) : option (list string) :=
    Some (default [] (w !! name) ++ [value])%list in
  out_w out !! "Access-Control-Allow-Credentials"
    = (if AccessControlAllowCredentials (opt s)
       then appended "Access-Control-Allow-Credentials" "true"
       else w !! "Access-Control-Allow-Credentials")
  ∧ out_w out !! "Access-Control-Allow-Headers"
    = (if decide (allowHeaders = "") then w !! "Access-Control-Allow-Headers"
       else appended "Access-Control-Allow-Headers" allowHeaders)
  ∧ out_w out !! "Access-Control-Allow-Methods"
    = (if decide (allowMethods = "") then w !! "Access-Control-Allow-Methods"
       else appended "Access-Control-Allow-Methods" allowMethods)
  ∧ (allowHeaders = "" ↔
       AccessControlAllowHeaders (opt s) = []
       ∨ AccessControlAllowHeaders (opt s) = [""])
  ∧ (allowMethods = "" ↔
       AccessControlAllowMethods (opt s) = []
       ∨ AccessControlAllowMethods (opt s) = [""]).
Proof.
  intros Hp out allowHeaders allowMethods appended. unfold out, appended.
  rewrite (ServeHTTP_preflight _ _ _ _ _ Hp).
  split; [|split; [|split; [|split]]]; try apply Join_comma_empty.
  all: unfold preflight; destruct (getAllowOrigin _) as [a e]; simpl;
    fold allowHeaders allowMethods.
  - rewrite Add_lookup_ne by names_differ.
    destruct (decide (a = "")), (decide (allowMethods = "")),
      (decide (allowHeaders = ""));
      rewrite ?Add_lookup_ne by names_differ;
      destruct (AccessControlAllowCredentials (opt s)); try done;
      by rewrite Add_lookup, decide_True.
  - rewrite Add_lookup_ne by names_differ.
    destruct (decide (a = "")), (decide (allowMethods = ""));
      rewrite ?Add_lookup_ne by names_differ;
      destruct (decide (allowHeaders = ""));
      rewrite ?Add_lookup, ?decide_True by reflexivity;
      destruct (AccessControlAllowCredentials (opt s));
      rewrite ?Add_lookup_ne by names_differ; done.
  - rewrite Add_lookup_ne by names_differ.
    destruct (decide (a = ""));
      rewrite ?Add_lookup_ne by names_differ;
      destruct (decide (allowMethods = ""));
      rewrite ?Add_lookup, ?decide_True by reflexivity;
      destruct (decide (allowHeaders = ""));
      rewrite ?Add_lookup_ne by names_differ;
      destruct (AccessControlAllowCredentials (opt s));
      rewrite ?Add_lookup_ne by names_differ; done.
Qed.

Lemma preflight_conditional_headers_witness :
  preflightRequest (requestFrom "OPTIONS" "https://a.test")
  ∧ out_w (ServeHTTP [] (instanceOf (corsOptions "bogus" [] 600)) ∅
             (requestFrom "OPTIONS" "https://a.test") None)
      !! "Access-Control-Allow-Methods" = Some ["GET,PUT"].
Proof.
  assert (preflightRequest (requestFrom "OPTIONS" "https://a.test")) as Hp.
  { vm_compute. repeat split; discriminate. }
  split; [exact Hp|].
  exact (proj1 (proj2 (proj2 (preflight_conditional_headers []
                  (instanceOf (corsOptions "bogus" [] 600)) ∅
                  (requestFrom "OPTIONS" "https://a.test") None Hp)))).
Defined.

(** X5. A preflight answer only appends: under every header name the
    values the response writer held come first, unchanged, in what it holds
    afterwards; the names other than the five CORS names of the answer hold
    exactly what they held; and the request comes back as it was, the
    custom request headers not being applied to a preflight request. *)
Theorem preflight_appends_only seed s w r next :
  preflightRequest r →
  let out := ServeHTTP seed s w r next in
  (∀ key, default [] (w !! key) `prefix_of` default [] (out_w out !! key))
  ∧ (∀ key,
       key ∉ ["Access-Control-Allow-Credentials"; "Access-Control-Allow-Headers";
              "Access-Control-Allow-Methods"; "Access-Control-Allow-Origin";
              "Access-Control-Max-Age"] →
       out_w out !! key = w !! key)
  ∧ out_r out = r.
Proof.
  intros Hp out. unfold out. rewrite (ServeHTTP_preflight _ _ _ _ _ Hp).
  split; [|split].
  - intros key. unfold preflight. destruct (getAllowOrigin _) as [a e]. simpl.
    etrans; [|apply Add_prefix].
    destruct (decide (a = "")); [|etrans; [|apply Add_prefix]];
      (destruct (decide (strings.Join (AccessControlAllowMethods _) "," = ""));
         [|etrans; [|apply Add_prefix]]);
      (destruct (decide (strings.Join (AccessControlAllowHeaders _) "," = ""));
         [|etrans; [|apply Add_prefix]]);
      (destruct (AccessControlAllowCredentials _);
         [etrans; [|apply Add_prefix]|]); done.
  - intros key Hk. rewrite !not_elem_of_cons in Hk.
    destruct Hk as (K1 & K2 & K3 & K4 & K5 & _).
    unfold preflight. destruct (getAllowOrigin _) as [a e]. simpl.
    rewrite Add_other by done.
    split_ifs; rewrite ?Add_other by done; done.
  - unfold preflight. by destruct (getAllowOrigin _) as [a e].
Qed.

Lemma preflight_appends_only_witness :
  preflightRequest (requestFrom "OPTIONS" "https://a.test")
  ∧ out_r (ServeHTTP [] (instanceOf (corsOptions "*" [] 600)) ∅
             (requestFrom "OPTIONS" "https://a.test") None)
    = requestFrom "OPTIONS" "https://a.test".
Proof.
  assert (preflightRequest (requestFrom "OPTIONS" "https://a.test")) as Hp.
  { vm_compute. repeat split; discriminate. }
  split; [exact Hp|].
  exact (proj2 (proj2 (preflight_appends_only []
                  (instanceOf (corsOptions "*" [] 600)) ∅
                  (requestFrom "OPTIONS" "https://a.test") None Hp))).
Defined.

(** ** The header loop on any mapping *)

Lemma rangeMap_empty seed : rangeMap seed ∅ = [].
Proof.
  induction seed as [|k seed IH]; simpl.
  - apply map_to_list_empty.
  - by rewrite lookup_empty.
Qed.

Lemma ModifyRequestHeaders_empty seed s r :
  CustomRequestHeaders (opt s) = ∅ → ModifyRequestHeaders seed s r = r.
Proof.
  intros He. unfold ModifyRequestHeaders, applyHeaders.
  rewrite He, rangeMap_empty. by destruct r.
Qed.

Lemma applyHeaders_absorb seed1 seed2 (h g : http.Header) mapping key :
  g !! key = applyHeaders seed1 h mapping !! key →
  applyHeaders seed2 g mapping !! key = applyHeaders seed2 h mapping !! key.
Proof.
  unfold applyHeaders. rewrite !foldl_setOrDel_lookup. intros Hg.
  destruct (lastWrite key (rangeMap seed2 mapping)) eqn:H2; simpl; [done|].
  rewrite Hg.
  rewrite (lastWrite_perm_None key (rangeMap seed2 mapping)
             (rangeMap seed1 mapping)); [done| |done].
  by rewrite !rangeMap_perm.
Qed.

(** X6. Whatever the mapping, names that share a canonical form included,
    and whatever the order of the visit, the header loop leaves each header
    in one of two states.  Either no name of the mapping has that canonical
    form, and the header is as it was; or some pair of the mapping with
    that canonical form decides it alone: absent for the empty value, that
    single value otherwise, and [Get] returns the value of that pair under
    every spelling of the name.  So a header named by the mapping never
    ends with two values or with a value from outside the mapping. *)
Theorem applyHeaders_last_visit seed (target : http.Header) mapping key :
  let h := applyHeaders seed target mapping in
  ((∀ name, is_Some (mapping !! name) → canon name ≠ key)
   ∧ h !! key = target !! key)
  ∨ (∃ name value,
       mapping !! name = Some value ∧ canon name = key
       ∧ h !! key = written value
       ∧ ∀ spelling, canon spelling = key → http.Get h spelling = value).
Proof.
  intros h. unfold h, applyHeaders.
  destruct (lastWrite key (rangeMap seed mapping)) as [x|] eqn:Hl.
  - right. destruct (lastWrite_Some _ _ _ Hl) as (k & v & Hin & Hk & ->).
    apply rangeMap_elem_of in Hin. exists k, v.
    assert (foldl setOrDel target (rangeMap seed mapping) !! key = written v)
      as Hw by (by rewrite foldl_setOrDel_lookup, Hl).
    repeat split; try done.
    intros spelling Hs. apply get_written. by rewrite Hs.
  - left. split.
    + intros name [v Hv] Hname. apply lastWrite_None in Hl. apply Hl.
      apply list_elem_of_fmap. exists name. split; [done|].
      apply list_elem_of_fmap. exists (name, v). split; [done|].
      by apply rangeMap_elem_of.
    + by rewrite foldl_setOrDel_lookup, Hl.
Qed.

(** X7. With no custom request header configured, a request that is not a
    preflight passes through untouched: [next], when there is one, is
    called once with the response writer and the request exactly as they
    came in, and without [next] both are left as they were. *)
Theorem ServeHTTP_passes_through seed s w r next :
  CustomRequestHeaders (opt s) = ∅ →
  ¬ preflightRequest r →
  let out := ServeHTTP seed s w r next in
  match next with
  | Some f => out_trace out = [CallNext w r] ∧ (out_w out, out_r out) = f w r
  | None => out_trace out = [] ∧ out_w out = w ∧ out_r out = r
  end.
Proof.
  intros He Hp out. unfold out. rewrite (ServeHTTP_forward _ _ _ _ _ Hp).
  unfold forward. rewrite ModifyRequestHeaders_empty by done.
  destruct next as [f|]; [|done]. by destruct (f w r).
Qed.

Lemma ServeHTTP_passes_through_witness :
  CustomRequestHeaders (opt (instanceOf corsOnlyOptions)) = ∅
  ∧ ¬ preflightRequest (requestFrom "GET" "https://a.test")
  ∧ out_r (ServeHTTP ["Origin"] (instanceOf corsOnlyOptions) ∅
             (requestFrom "GET" "https://a.test") None)
    = requestFrom "GET" "https://a.test".
Proof.
  assert (CustomRequestHeaders (opt (instanceOf corsOnlyOptions)) = ∅) as He.
  { reflexivity. }
  assert (¬ preflightRequest (requestFrom "GET" "https://a.test")) as Hn.
  { intros [Hm _]. vm_compute in Hm. discriminate. }
  split; [exact He|]. split; [exact Hn|].
  exact (proj2 (proj2 (ServeHTTP_passes_through ["Origin"]
                  (instanceOf corsOnlyOptions) ∅
                  (requestFrom "GET" "https://a.test") None He Hn))).
Defined.

(** X8. [ModifyResponseHeaders] is idempotent: run a second time on the
    response it has modified, in whatever order each run visits the custom
    response headers, it returns the header set and the error that the
    second run alone returns on the original response. *)
Theorem ModifyResponseHeaders_idempotent seed1 seed2 s res :
  ModifyResponseHeaders seed2 s (ModifyResponseHeaders seed1 s res).1
  = ModifyResponseHeaders seed2 s res.
Proof.
  destruct (getAllowOrigin s) as [a [e|]] eqn:Hg.
  - unfold ModifyResponseHeaders. rewrite Hg. simpl. do 2 f_equal.
    unfold applyHeaders. apply foldl_setOrDel_twice. by rewrite !rangeMap_perm.
  - assert (∀ sd rs, (ModifyResponseHeaders sd s rs).2 = None) as Hok.
    { intros sd rs. unfold ModifyResponseHeaders. by rewrite Hg. }
    apply injective_projections; [|by rewrite !Hok].
    destruct (ModifyResponseHeaders seed2 s
                (ModifyResponseHeaders seed1 s res).1).1 as [h2] eqn:E2.
    destruct (ModifyResponseHeaders seed2 s res).1 as [h1] eqn:E1.
    f_equal. apply map_eq. intros key.
    change h2 with (http.ResHeader {| http.ResHeader := h2 |}).
    change h1 with (http.ResHeader {| http.ResHeader := h1 |}).
    rewrite <-E2, <-E1.
    rewrite !(ModifyResponseHeaders_lookup seed2 s _ a key Hg).
    assert (applyHeaders seed2
              (http.ResHeader (ModifyResponseHeaders seed1 s res).1)
              (CustomResponseHeaders (opt s)) !! key
            = applyHeaders seed2 (http.ResHeader res)
                (CustomResponseHeaders (opt s)) !! key
            ∨ key = "Access-Control-Allow-Origin"
            ∨ (key = "Access-Control-Allow-Credentials"
               ∧ AccessControlAllowCredentials (opt s) = true)
            ∨ (key = "Access-Control-Expose-Headers"
               ∧ strings.Join (AccessControlExposeHeaders (opt s)) "," ≠ ""))
      as Hcases.
    { destruct (decide (key = "Access-Control-Allow-Origin")) as [|K1];
        [by right; left|].
      destruct (decide (key = "Access-Control-Allow-Credentials"
                        ∧ AccessControlAllowCredentials (opt s) = true))
        as [|K2]; [by right; right; left|].
      destruct (decide (key = "Access-Control-Expose-Headers"
                        ∧ strings.Join (AccessControlExposeHeaders (opt s)) ","
                          ≠ "")) as [|K3]; [by right; right; right|].
      left. apply (applyHeaders_absorb seed1).
      rewrite (ModifyResponseHeaders_lookup seed1 s res a key Hg).
      rewrite (decide_False (P := key = "Access-Control-Allow-Origin")) by done.
      destruct (decide (key = "Access-Control-Allow-Credentials")) as [->|].
      { destruct (AccessControlAllowCredentials (opt s)); [|done].
        by destruct K2. }
      destruct (decide (key = "Access-Control-Expose-Headers")) as [->|];
        [|done].
      destruct (decide (strings.Join (AccessControlExposeHeaders (opt s)) ","
                        = "")); [done|]. by destruct K3. }
    destruct Hcases as [Heq|[->|[[-> Hc]|[-> Hx]]]].
    + by rewrite Heq.
    + done.
    + rewrite Hc. by repeat case_decide.
    + rewrite (decide_False (P := strings.Join _ _ = "")) by done.
      by repeat case_decide.
Qed.

(** X9. An instance as [NewHeaderFromStruct] builds it holds no captured
    origin.  With "origin-list-or-null" configured, [ModifyResponseHeaders]
    on such an instance, before any request was served, succeeds and sets
    Access-Control-Allow-Origin to "null". *)
Theorem NewHeaderFromStruct_fresh hasCustom hasCors h s seed res :
  NewHeaderFromStruct hasCustom hasCors (Some h) = Some s →
  types.AccessControlAllowOrigin h = "origin-list-or-null" →
  originHeader s = ""
  ∧ (ModifyResponseHeaders seed s res).2 = None
  ∧ http.ResHeader (ModifyResponseHeaders seed s res).1
      !! "Access-Control-Allow-Origin" = Some ["null"].
Proof.
  unfold NewHeaderFromStruct.
  destruct (negb (hasCustom h) && negb (hasCors h)); [done|].
  intros [= <-] Hc. split; [done|].
  apply ModifyResponseHeaders_allow_origin.
  unfold getAllowOrigin. simpl. by rewrite Hc.
Qed.

Lemma NewHeaderFromStruct_fresh_witness :
  let s :=
    {| opt := {| CustomRequestHeaders := ∅; CustomResponseHeaders := ∅;
                 AccessControlAllowCredentials := false;
                 AccessControlAllowHeaders := [];
                 AccessControlAllowMethods := [];
                 AccessControlAllowOrigin := "origin-list-or-null";
                 AccessControlExposeHeaders := [];
                 AccessControlMaxAge := 0 |};
       originHeader := "" |} in
  NewHeaderFromStruct types.HasCustomHeadersDefined types.HasCorsHeadersDefined
    (Some (frontendHeaders "origin-list-or-null")) = Some s
  ∧ http.ResHeader (ModifyResponseHeaders [] s {| http.ResHeader := ∅ |}).1
      !! "Access-Control-Allow-Origin" = Some ["null"].
Proof.
  intros s.
  assert (NewHeaderFromStruct types.HasCustomHeadersDefined
            types.HasCorsHeadersDefined
            (Some (frontendHeaders "origin-list-or-null")) = Some s) as Hnew.
  { vm_compute; reflexivity. }
  split; [exact Hnew|].
  exact (proj2 (proj2 (NewHeaderFromStruct_fresh _ _ _ s []
                         {| http.ResHeader := ∅ |} Hnew eq_refl))).
Defined.

(** X10. For a request that is not a preflight and a mapping whose names
    have distinct canonical forms, the request that [ServeHTTP] hands to
    [next] (or leaves behind when there is no [next]) has the method it
    came with and answers [Get] with the configured value for every
    configured name: the value itself, or the empty string for a name
    configured for deletion. *)
Theorem ServeHTTP_hands_on_custom_headers seed s w r next name value :
  ¬ preflightRequest r →
  distinctCanonical (CustomRequestHeaders (opt s)) = true →
  CustomRequestHeaders (opt s) !! name = Some value →
  let out := ServeHTTP seed s w r next in
  ∃ r1,
    match next with
    | Some f => out_trace out = [CallNext w r1] ∧ (out_w out, out_r out) = f w r1
    | None => out_trace out = [] ∧ out_r out = r1
    end
    ∧ http.Method r1 = http.Method r
    ∧ http.Get (http.ReqHeader r1) name = value.
Proof.
  intros Hp Hd Hin out. unfold out. rewrite (ServeHTTP_forward _ _ _ _ _ Hp).
  set (s' := setOriginHeader s _).
  exists (ModifyRequestHeaders seed s' r). split; [|split; [done|]].
  - unfold forward. destruct next as [f|]; [|done].
    by destruct (f w (ModifyRequestHeaders seed s' r)).
  - simpl. apply get_written. apply bool_decide_eq_true in Hd.
    by apply applyHeaders_written.
Qed.

Lemma ServeHTTP_hands_on_custom_headers_witness :
  ¬ preflightRequest (requestFrom "GET" "https://a.test")
  ∧ distinctCanonical
      (CustomRequestHeaders (opt (instanceOf (corsOptions "*" [] 600)))) = true
  ∧ CustomRequestHeaders (opt (instanceOf (corsOptions "*" [] 600))) !! "X-A"
    = Some "1"
  ∧ ∃ r1,
      (out_trace (ServeHTTP [] (instanceOf (corsOptions "*" [] 600)) ∅
                    (requestFrom "GET" "https://a.test") None) = []
       ∧ out_r (ServeHTTP [] (instanceOf (corsOptions "*" [] 600)) ∅
                  (requestFrom "GET" "https://a.test") None) = r1)
      ∧ http.Method r1 = "GET"
      ∧ http.Get (http.ReqHeader r1) "X-A" = "1".
Proof.
  assert (¬ preflightRequest (requestFrom "GET" "https://a.test")) as Hn.
  { intros [Hm _]. vm_compute in Hm. discriminate. }
  assert (distinctCanonical
            (CustomRequestHeaders (opt (instanceOf (corsOptions "*" [] 600))))
          = true) as Hd.
  { vm_compute; reflexivity. }
  assert (CustomRequestHeaders (opt (instanceOf (corsOptions "*" [] 600)))
            !! "X-A" = Some "1") as Hin.
  { vm_compute; reflexivity. }
  split; [exact Hn|]. split; [exact Hd|]. split; [exact Hin|].
  exact (ServeHTTP_hands_on_custom_headers [] (instanceOf (corsOptions "*" [] 600))
           ∅ (requestFrom "GET" "https://a.test") None "X-A" "1" Hn Hd Hin).
Defined.
